(** * The alias registry of [monai/utils/aliases.py]

    A shallow embedding of [alias] and [resolve_name] and the properties of
    the name resolution they implement.

    The Python program works on a process-wide dictionary [GlobalAliases],
    on the interpreter's table of loaded modules [sys.modules], and on three
    facilities of the runtime it calls: [importlib.import_module],
    [getattr] on module objects and [inspect.getmodule].  The embedding
    keeps that structure: a [Runtime] record holds what the interpreter
    knows about objects and modules, a [World] record holds the two pieces
    of mutable state, and the two functions are written in a small
    state-and-exception monad.  Calls are taken one after the other, so
    the lock [alias_lock] around the accesses to the registry does not
    appear. *)

From Stdlib Require Import Ascii.
From stdpp Require Import gmap strings list fin_maps fin_sets.

Local Open Scope string_scope.

(** ** Python values *)

(** An object is known by its reference; [None] is the one object the code
    tests for by identity.  Two values are the same object exactly when
    they are equal. *)
Definition Ref := positive.

Inductive PyObj : Type :=
| PyNone
| PyRef (r : Ref).

#[global] Instance PyObj_eq_dec : EqDecision PyObj.
Proof. solve_decision. Defined.

(** [obj is None] *)
Definition is_None (v : PyObj) : bool :=
  match v with PyNone => true | PyRef _ => false end.

(** ** Exceptions *)

Inductive ExcClass : Type :=
| ValueError
| AssertionError
| IndexError
| AttributeError
| ModuleNotFoundError
| OtherException (cls : string).

#[global] Instance ExcClass_eq_dec : EqDecision ExcClass.
Proof. solve_decision. Defined.

(** The argument of an exception.  The four messages built by
    [resolve_name] are kept as their format string and its arguments;
    every other text (of the runtime's own exceptions) is [MsgText]. *)
Inductive Msg : Type :=
| MsgNone
| MsgModuleNotFound (modname : string)
    (* "Module %r not found" % modname *)
| MsgNoMember (modname declname : string)
    (* "Module %r does not have member %r" % (modname, declname) *)
| MsgAmbiguous (modnames : list string) (name : string)
    (* "Multiple modules (%r) with declaration name %r found,
        resolution is ambiguous" % (modnames, name) *)
| MsgNoModuleWithMember (name : string)
    (* "No module with member %r found" % name *)
| MsgText (text : string).

Record PyExc : Type := mkExc { exc_class : ExcClass; exc_msg : Msg }.

Inductive Result (A : Type) : Type :=
| Ok (a : A)
| Raise (e : PyExc).
Arguments Ok {A} a.
Arguments Raise {A} e.

(** ** The interpreter *)

(** What [importlib.import_module] finds for a module that is not loaded
    yet: nothing (it raises [ModuleNotFoundError]), a module object, or a
    module whose loading raises. *)
Inductive ImportOutcome : Type :=
| ImpNotFound
| ImpLoaded (m : Ref)
| ImpRaises (cls : ExcClass) (text : string).

(** The facts about objects that the two functions read and never change. *)
Record Runtime : Type := mkRuntime {
  module_dict : Ref -> gmap string PyObj;   (* the attributes of a module *)
  module_name : Ref -> string;              (* m.__name__ *)
  truthy : Ref -> bool;                     (* bool(obj) *)
  inspect_getmodule : Ref -> option Ref;    (* inspect.getmodule(obj) *)
  finder : string -> ImportOutcome          (* the import system *)
}.

(** What the code can observe of its calls into the runtime. *)
Inductive Event : Type :=
| EvImport (modname : string)    (* importlib.import_module(modname) *)
| EvScan.                        (* sys.modules.values() *)

(** The mutable state: the registry, the table of loaded modules in
    insertion order, and the log of calls into the runtime. *)
Record World : Type := mkWorld {
  GlobalAliases : gmap string PyObj;
  sys_modules : list (string * Ref);
  calls : list Event
}.

Definition set_aliases (g : gmap string PyObj) (w : World) : World :=
  mkWorld g (sys_modules w) (calls w).

Definition log_call (e : Event) (w : World) : World :=
  mkWorld (GlobalAliases w) (sys_modules w) (calls w ++ [e]).

Definition load_module (modname : string) (m : Ref) (w : World) : World :=
  mkWorld (GlobalAliases w) (sys_modules w ++ [(modname, m)]) (calls w).

(** ** A state and exception monad *)

Definition M (A : Type) : Type := World -> Result A * World.

Definition raise {A} (e : PyExc) : M A := fun w => (Raise e, w).
Definition get_world : M World := fun w => (Ok w, w).
Definition modify (f : World -> World) : M unit := fun w => (Ok tt, f w).
Definition lift {A} (r : Result A) : M A := fun w => (r, w).

#[global] Instance M_ret : MRet M := fun A a w => (Ok a, w).
#[global] Instance M_bind : MBind M := fun A B k c w =>
  match c w with
  | (Ok a, w') => k a w'
  | (Raise e, w') => (Raise e, w')
  end.

Fixpoint mapM {A B} (f : A -> Result B) (l : list A) : Result (list B) :=
  match l with
  | [] => Ok []
  | x :: l' =>
      match f x with
      | Raise e => Raise e
      | Ok y => match mapM f l' with
                | Raise e => Raise e
                | Ok ys => Ok (y :: ys)
                end
      end
  end.

(** ** Strings *)

(** ["." in name] *)
Fixpoint contains_dot (s : string) : bool :=
  match s with
  | EmptyString => false
  | String c rest => Ascii.eqb c "."%char || contains_dot rest
  end.

(** The position split of [s.rsplit(".", 1)]: the text before the last
    dot and the text after it, when there is a dot. *)
Fixpoint rsplit_last (s : string) : option (string * string) :=
  match s with
  | EmptyString => None
  | String c rest =>
      match rsplit_last rest with
      | Some (before, after) => Some (String c before, after)
      | None => if Ascii.eqb c "."%char then Some (EmptyString, rest) else None
      end
  end.

(** [s.rsplit(".", 1)] *)
Definition rsplit (s : string) : list string :=
  match rsplit_last s with
  | Some (before, after) => [before; after]
  | None => [s]
  end.

(** ** [alias] *)

(** [for n in names: with alias_lock: GlobalAliases[n] = obj] *)
Definition store_names (names : list string) (obj : PyObj)
    (g : gmap string PyObj) : gmap string PyObj :=
  foldl (fun g n => <[n := obj]> g) g names.

(** The decorator [alias] built from the tuple [names], applied to [obj]. *)
Definition alias (names : list string) (obj : PyObj) : M PyObj :=
  modify (fun w => set_aliases (store_names names obj (GlobalAliases w)) w);;
  mret obj.

(** ** [resolve_name] *)

(** [try: c except cls: handler] *)
Definition try_except {A} (c : M A) (cls : ExcClass) (handler : M A) : M A :=
  fun w => match c w with
           | (Raise e, w') =>
               if decide (exc_class e = cls) then handler w' else (Raise e, w')
           | r => r
           end.

(** [assert cond], with assertions enabled *)
Definition py_assert (cond : bool) : M unit :=
  if cond then mret tt else raise (mkExc AssertionError MsgNone).

(** [d.get(key)] on the table of loaded modules *)
Fixpoint modules_get (modname : string) (tbl : list (string * Ref)) : option Ref :=
  match tbl with
  | [] => None
  | (k, m) :: tbl' => if decide (k = modname) then Some m else modules_get modname tbl'
  end.

(** [l[0]] *)
Definition index0 (l : list Ref) : Result Ref :=
  match l with
  | m :: _ => Ok m
  | [] => Raise (mkExc IndexError (MsgText "list index out of range"))
  end.

Section Resolve.
Context (rt : Runtime).

(** [getattr(m, name, None)] *)
Definition getattr_default (m : Ref) (name : string) : PyObj :=
  default PyNone (module_dict rt m !! name).

(** [getattr(m, name)] *)
Definition getattr (m : Ref) (name : string) : Result PyObj :=
  match module_dict rt m !! name with
  | Some v => Ok v
  | None => Raise (mkExc AttributeError (MsgText "module has no attribute"))
  end.

(** The truth value of an object, as [if v] tests it. *)
Definition py_bool (v : PyObj) : bool :=
  match v with
  | PyNone => false
  | PyRef r => truthy rt r
  end.

(** [inspect.getmodule(v)] *)
Definition getmodule (v : PyObj) : option Ref :=
  match v with
  | PyNone => None
  | PyRef r => inspect_getmodule rt r
  end.

(** [importlib.import_module(modname)]: a module that is loaded is
    returned as it is; one that is not is looked for, and entered in
    [sys.modules] when it loads.  What the top-level code of a module does
    beyond that is not part of the import here: a module that registers
    aliases while it loads is an import followed by calls of [alias]. *)
Definition import_module (modname : string) : M Ref :=
  modify (log_call (EvImport modname));;
  w ← get_world;
  match modules_get modname (sys_modules w) with
  | Some m => mret m
  | None =>
      match finder rt modname with
      | ImpNotFound =>
          raise (mkExc ModuleNotFoundError (MsgText "No module named"))
      | ImpLoaded m => modify (load_module modname m);; mret m
      | ImpRaises cls text => raise (mkExc cls (MsgText text))
      end
  end.

(** [list(sys.modules.values())] *)
Definition sys_modules_values : M (list Ref) :=
  modify (log_call EvScan);;
  w ← get_world;
  mret ((sys_modules w).*2).

(** Lines 50-60: the name as a qualified name. *)
Definition resolve_qualified (name : string) : M PyObj :=
  match rsplit name with
  | [modname; declname] =>
      obj ← try_except
               (md ← import_module modname;
                mret (getattr_default md declname))
               ModuleNotFoundError
               (raise (mkExc ValueError (MsgModuleNotFound modname)));
      if is_None obj
      then raise (mkExc ValueError (MsgNoMember modname declname))
      else mret obj
  | _ => raise (mkExc ValueError (MsgText "not enough values to unpack"))
  end.

(** Line 67: the loaded modules whose attribute [name] is true. *)
Definition candidates (name : string) (loaded : list Ref) : list Ref :=
  filter (λ m, py_bool (getattr_default m name)) loaded.

(** Lines 71-72: the modules the candidates' values come from. *)
Definition defining_modules (vals : list PyObj) : gset Ref :=
  let foundmods : gset (option Ref) := list_to_set (getmodule <$> vals) in
  set_omap id foundmods.

(** Lines 63-84: the name as a simple name. *)
Definition resolve_simple (name : string) : M PyObj :=
  loaded ← sys_modules_values;
  let mods := candidates name loaded in
  obj ← (if bool_decide (0 < length mods) then
           mods ← (if bool_decide (1 < length mods) then
                     vals ← lift (mapM (λ m, getattr m name) mods);
                     let foundmods := defining_modules vals in
                     if bool_decide (1 < size foundmods) then
                       let modnames := module_name rt <$> elements foundmods in
                       raise (mkExc ValueError (MsgAmbiguous modnames name))
                     else mret (elements foundmods)
                   else mret mods);
           m0 ← lift (index0 mods);
           lift (getattr m0 name)
         else mret PyNone);
  if is_None obj
  then raise (mkExc ValueError (MsgNoModuleWithMember name))
  else mret obj.

(** [resolve_name(name)] *)
Definition resolve_name (name : string) : M PyObj :=
  w ← get_world;
  let obj := default PyNone (GlobalAliases w !! name) in
  py_assert (negb (bool_decide (is_Some (GlobalAliases w !! name)))
             || negb (is_None obj));;
  obj ← (if is_None obj && contains_dot name
         then resolve_qualified name
         else mret obj);
  obj ← (if is_None obj then resolve_simple name else mret obj);
  mret obj.

(** What lines 81 and 83 make of the module chosen: a derived form,
    used to state what [resolve_simple] computes. *)
Definition read_member (name : string) (m : Ref) : Result PyObj :=
  match module_dict rt m !! name with
  | None => Raise (mkExc AttributeError (MsgText "module has no attribute"))
  | Some PyNone => Raise (mkExc ValueError (MsgNoModuleWithMember name))
  | Some (PyRef r) => Ok (PyRef r)
  end.

(** The result of the scan as a function of the loaded modules. *)
Definition scan_result (name : string) (loaded : list Ref) : Result PyObj :=
  match candidates name loaded with
  | [] => Raise (mkExc ValueError (MsgNoModuleWithMember name))
  | [m] => Ok (getattr_default m name)
  | mods =>
      let foundmods :=
        defining_modules ((λ m, getattr_default m name) <$> mods) in
      if bool_decide (1 < size foundmods) then
        Raise (mkExc ValueError
                 (MsgAmbiguous (module_name rt <$> elements foundmods) name))
      else
        match elements foundmods with
        | [] => Raise (mkExc IndexError (MsgText "list index out of range"))
        | m0 :: _ => read_member name m0
        end
  end.

End Resolve.

(** ** Sequences of calls *)

(** A program that uses the registry is, for the registry, a sequence of
    registrations and resolutions.  The state after a call is the state
    the call leaves, whether it returned or raised. *)
Inductive Op : Type :=
| OpAlias (names : list string) (obj : PyObj)
| OpResolve (name : string).

Definition exec_op (rt : Runtime) (w : World) (op : Op) : World :=
  match op with
  | OpAlias names obj => (alias names obj w).2
  | OpResolve name => (resolve_name rt name w).2
  end.

Definition exec_ops (rt : Runtime) (ops : list Op) (w : World) : World :=
  foldl (exec_op rt) w ops.

(** [registers name op]: the call [op] stores something under [name]. *)
Definition registers (name : string) (op : Op) : Prop :=
  match op with
  | OpAlias names _ => name ∈ names
  | OpResolve _ => False
  end.

(** The kinds of failure the documentation of [resolve_name] tells apart.
    A caller can recover the kind from the message only. *)
Inductive ErrorKind : Type :=
| ModuleNotFoundKind
| MissingMemberKind
| NotFoundKind
| AmbiguousNameKind.

Definition error_kind (msg : Msg) : option ErrorKind :=
  match msg with
  | MsgModuleNotFound _ => Some ModuleNotFoundKind
  | MsgNoMember _ _ => Some MissingMemberKind
  | MsgNoModuleWithMember _ => Some NotFoundKind
  | MsgAmbiguous _ _ => Some AmbiguousNameKind
  | MsgNone | MsgText _ => None
  end.

(** [raises_kind r k]: the call ended with an exception of kind [k]. *)
Definition raises_kind {A} (r : Result A) (k : ErrorKind) : Prop :=
  match r with
  | Raise e => error_kind (exc_msg e) = Some k
  | Ok _ => False
  end.

(** ** A concrete interpreter state

    Three loaded modules.  [pkg.a] defines the function [f] (object 20)
    and the class [Member] (object 10), and binds [Y] to [None] and [ZERO]
    to the integer 0 (object 11).  [pkg.b] and [pkg.c] both contain
    [from pkg.a import f as X], [from pkg.a import f as Y] and [N = 5]
    (object 21; [inspect.getmodule] knows no module for an integer);
    [pkg.b] also imports [Member] from [pkg.a]; and each of the two defines
    a class [Own] of its own (objects 12 and 13).  [pkg.d] can be imported
    and is empty; no other module exists, and the import of the empty name
    is refused with a [ValueError] of the import system's own. *)
Module Demo.
Local Open Scope positive_scope.

Definition dict (m : Ref) : gmap string PyObj :=
  match m with
  | 1 => list_to_map [("f", PyRef 20); ("Member", PyRef 10);
                      ("Y", PyNone); ("ZERO", PyRef 11)]
  | 2 => list_to_map [("X", PyRef 20); ("Y", PyRef 20); ("Member", PyRef 10);
                      ("Own", PyRef 12); ("N", PyRef 21)]
  | 3 => list_to_map [("X", PyRef 20); ("Y", PyRef 20);
                      ("Own", PyRef 13); ("N", PyRef 21)]
  | _ => ∅
  end.

Definition name_of (m : Ref) : string :=
  match m with
  | 1 => "pkg.a" | 2 => "pkg.b" | 3 => "pkg.c" | 4 => "pkg.d"
  | _ => "int"
  end%string.

Definition rt : Runtime := {|
  module_dict := dict;
  module_name := name_of;
  truthy := λ r, match r with 11 => false | _ => true end;
  inspect_getmodule := λ r,
    match r with
    | 10 | 20 => Some 1
    | 12 => Some 2
    | 13 => Some 3
    | 1 | 2 | 3 | 4 => Some r
    | _ => None
    end;
  finder := λ n,
    if decide (n = "pkg.a"%string) then ImpLoaded 1
    else if decide (n = "pkg.d"%string) then ImpLoaded 4
    else if decide (n = ""%string) then ImpRaises ValueError "Empty module name"
    else ImpNotFound
|}.

Definition world : World :=
  mkWorld ∅ [("pkg.a"%string, 1); ("pkg.b"%string, 2); ("pkg.c"%string, 3)] [].

(** The same after [alias("Net", "pkg.a.Member")(None)]. *)
Definition world_None : World :=
  (alias ["Net"; "pkg.a.Member"]%string PyNone world).2.

(** The same after [alias("pkg.a.Member")(obj)] for an object 7. *)
Definition world_shadow : World :=
  (alias ["pkg.a.Member"]%string (PyRef 7) world).2.

(** Four registrations; [Net] is registered twice. *)
Definition regs : list (list string * PyObj) :=
  [(["Net"; "Other"], PyRef 7); (["Third"], PyRef 9);
   (["Net"], PyRef 8); (["Other"], PyRef 9)]%string.

(** Two registrations of [Net], the second of [None]. *)
Definition regs_None : list (list string * PyObj) :=
  [(["Net"], PyRef 7); (["Net"], PyNone)]%string.
End Demo.

(** ** The documented properties, as predicates

    Each is stated for one call, so that it can be evaluated on a state. *)

#[global] Instance registers_dec name op : Decision (registers name op).
Proof. destruct op; simpl; apply _. Defined.

(** Round trip: registering [obj] under [name] hands [obj] back, and after
    the calls [later], [resolve_name] gives the same object. *)
Definition round_trip (rt : Runtime) (name : string) (obj : PyObj)
    (later : list Op) (w : World) : Prop :=
  (alias [name] obj w).1 = Ok obj ∧
  (resolve_name rt name (exec_ops rt later (alias [name] obj w).2)).1 = Ok obj.

(** Precedence of the registry: the call returns [obj] and leaves the
    state as it was, so that no import and no scan was logged. *)
Definition registry_first (rt : Runtime) (name : string) (obj : PyObj)
    (w : World) : Prop :=
  resolve_name rt name w = (Ok obj, w).

(** A sequence of registrations. *)
Definition register_all (regs : list (list string * PyObj)) (w : World) : World :=
  foldl (λ w reg, (alias reg.1 reg.2 w).2) w regs.

(** [obj] was registered under [name] by a call of [regs] after which no
    call registers [name]. *)
Definition registered_last (name : string) (obj : PyObj)
    (regs : list (list string * PyObj)) : Prop :=
  ∃ before names after,
    regs = (before ++ (names, obj) :: after)%list ∧ name ∈ names ∧
    Forall (λ reg, name ∉ reg.1) after.

(** Last registration wins: the entry of [name] is [obj], and resolving
    [name] returns [obj]. *)
Definition last_wins (rt : Runtime) (name : string) (obj : PyObj) (w : World) : Prop :=
  GlobalAliases w !! name = Some obj ∧ (resolve_name rt name w).1 = Ok obj.


(** Missing member, as documented: the call fails with that kind exactly
    when the module [md] has no attribute [declname], and returns the
    attribute otherwise. *)
Definition missing_member_iff_lacking (rt : Runtime) (name declname : string)
    (md : Ref) (w : World) : Prop :=
  (raises_kind (resolve_name rt name w).1 MissingMemberKind
   ↔ module_dict rt md !! declname = None) ∧
  (∀ v, module_dict rt md !! declname = Some v →
        (resolve_name rt name w).1 = Ok v).

(** The same with an attribute bound to [None] counted as lacking. *)
Definition missing_member_iff_None (rt : Runtime) (name declname : string)
    (md : Ref) (w : World) : Prop :=
  (raises_kind (resolve_name rt name w).1 MissingMemberKind
   ↔ getattr_default rt md declname = PyNone) ∧
  (∀ v, module_dict rt md !! declname = Some v → v ≠ PyNone →
        (resolve_name rt name w).1 = Ok v).

(** The values the candidate modules bind the name to. *)
Definition candidate_values (rt : Runtime) (name : string) (w : World) : list PyObj :=
  (λ m, getattr_default rt m name) <$> candidates rt name (sys_modules w).*2.

(** ** Programs over the registry *)


(** The call registers an object, not [None]. *)
Definition registers_object (op : Op) : Prop :=
  match op with
  | OpAlias _ obj => obj ≠ PyNone
  | OpResolve _ => True
  end.

#[global] Instance registers_object_dec op : Decision (registers_object op).
Proof. destruct op; simpl; apply _. Defined.

(** No name of the registry is bound to [None]. *)
Definition None_free (w : World) : Prop :=
  ∀ name, GlobalAliases w !! name ≠ Some PyNone.

(** * Properties *)

(** ** The monad *)

Ltac run_monad :=
  cbv [mbind M_bind mret M_ret modify get_world lift raise py_assert] in *.

(** ** Splitting a name *)

Lemma rsplit_last_None s : rsplit_last s = None ↔ contains_dot s = false.
Proof.
  induction s as [|c s IH]; simpl; [done|].
  destruct (rsplit_last s) as [[b a]|].
  - split; [done|]. intros [_ H]%orb_false_iff. apply IH in H. done.
  - destruct IH as [IH _]. rewrite IH by done.
    destruct (Ascii.eqb c "."); simpl; split; done.
Qed.

Lemma contains_dot_app_dot m d : contains_dot (m +:+ "." +:+ d) = true.
Proof.
  induction m as [|c m IH]; simpl; [done|].
  fold (m +:+ "." +:+ d). rewrite IH. by rewrite orb_true_r.
Qed.

(** [rsplit_last] cuts at the last dot: what follows the cut has no dot,
    and the two pieces joined by a dot give the name back. *)
Lemma rsplit_last_Some s m d :
  rsplit_last s = Some (m, d) ↔ s = m +:+ "." +:+ d ∧ contains_dot d = false.
Proof.
  revert m. induction s as [|c s IH]; intros m; simpl.
  - split; [done|]. intros [H _]. destruct m; discriminate.
  - destruct (rsplit_last s) as [[b a]|] eqn:Hs.
    + split.
      * intros [= <- <-]. destruct (IH b) as [[-> Hd] _]; [done|].
        split; [done|]. done.
      * intros [H Hd]. destruct m as [|c' m]; simpl in H.
        -- injection H as -> ->. apply rsplit_last_None in Hd.
           change ("" +:+ d) with d in Hs. congruence.
        -- injection H as <- ->.
           assert (Some (b, a) = Some (m, d)) as [= -> ->]; [|done].
           apply IH. done.
    + apply rsplit_last_None in Hs. split.
      * destruct (Ascii.eqb c ".") eqn:Hc; [|done].
        intros [= <- <-]. apply Ascii.eqb_eq in Hc as ->. done.
      * intros [H Hd]. destruct m as [|c' m]; simpl in H.
        -- injection H as -> ->. done.
        -- injection H as <- ->.
           rewrite contains_dot_app_dot in Hs. done.
Qed.

Lemma rsplit_dotted s m d : rsplit_last s = Some (m, d) → contains_dot s = true.
Proof.
  intros H. destruct (contains_dot s) eqn:E; [done|].
  apply rsplit_last_None in E. congruence.
Qed.

Lemma contains_dot_rsplit s :
  contains_dot s = true → ∃ m d, rsplit_last s = Some (m, d).
Proof.
  intros H. destruct (rsplit_last s) as [[m d]|] eqn:E; [eauto|].
  apply rsplit_last_None in E. congruence.
Qed.

(** ** The registry under [alias] *)

Lemma store_names_lookup names obj (g : gmap string PyObj) name :
  store_names names obj g !! name
  = if decide (name ∈ names) then Some obj else g !! name.
Proof.
  unfold store_names. revert g.
  induction names as [|n names IH]; intros g; simpl.
  - destruct (decide (name ∈ [])) as [H|_]; [by inversion H|done].
  - rewrite IH. destruct (decide (name ∈ names)) as [Hin|Hout].
    + rewrite decide_True; [done|by right].
    + destruct (decide (n = name)) as [->|Hne].
      * rewrite decide_True; [|by left]. by rewrite lookup_insert_eq.
      * rewrite decide_False; [by rewrite lookup_insert_ne|].
        intros [?|?]%elem_of_cons; congruence.
Qed.

Lemma alias_run names obj w :
  alias names obj w
  = (Ok obj, set_aliases (store_names names obj (GlobalAliases w)) w).
Proof. reflexivity. Qed.

Lemma alias_lookup names obj w name :
  GlobalAliases (alias names obj w).2 !! name
  = if decide (name ∈ names) then Some obj else GlobalAliases w !! name.
Proof. rewrite alias_run. simpl. apply store_names_lookup. Qed.

(** ** The three strategies of [resolve_name] *)

Section ResolveFacts.
Context (rt : Runtime).

Lemma import_module_run modname w :
  import_module rt modname w
  = let w1 := log_call (EvImport modname) w in
    match modules_get modname (sys_modules w) with
    | Some m => (Ok m, w1)
    | None =>
        match finder rt modname with
        | ImpNotFound =>
            (Raise (mkExc ModuleNotFoundError (MsgText "No module named")), w1)
        | ImpLoaded m => (Ok m, load_module modname m w1)
        | ImpRaises cls text => (Raise (mkExc cls (MsgText text)), w1)
        end
    end.
Proof.
  unfold import_module. run_monad. simpl.
  destruct (modules_get modname (sys_modules w)); [done|].
  by destruct (finder rt modname).
Qed.

Lemma import_module_aliases modname w :
  GlobalAliases (import_module rt modname w).2 = GlobalAliases w.
Proof.
  rewrite import_module_run. simpl.
  destruct (modules_get modname (sys_modules w)); [done|].
  by destruct (finder rt modname).
Qed.

Lemma import_module_calls modname w :
  calls (import_module rt modname w).2 = (calls w ++ [EvImport modname])%list.
Proof.
  rewrite import_module_run. simpl.
  destruct (modules_get modname (sys_modules w)); [done|].
  by destruct (finder rt modname).
Qed.

(** The qualified lookup, by the outcome of the import. *)
Lemma resolve_qualified_run name modname declname w :
  rsplit_last name = Some (modname, declname) →
  resolve_qualified rt name w
  = match import_module rt modname w with
    | (Ok md, w') =>
        match module_dict rt md !! declname with
        | Some (PyRef r) => (Ok (PyRef r), w')
        | Some PyNone | None =>
            (Raise (mkExc ValueError (MsgNoMember modname declname)), w')
        end
    | (Raise e, w') =>
        if decide (exc_class e = ModuleNotFoundError)
        then (Raise (mkExc ValueError (MsgModuleNotFound modname)), w')
        else (Raise e, w')
    end.
Proof.
  intros Hsplit. unfold resolve_qualified, rsplit. rewrite Hsplit.
  unfold try_except. run_monad.
  destruct (import_module rt modname w) as [[md|e] w'].
  - unfold getattr_default.
    destruct (module_dict rt md !! declname) as [[|r]|]; done.
  - destruct (decide (exc_class e = ModuleNotFoundError)); done.
Qed.

Lemma resolve_qualified_not_None name w v w' :
  resolve_qualified rt name w = (Ok v, w') → v ≠ PyNone.
Proof.
  unfold resolve_qualified, rsplit.
  destruct (rsplit_last name) as [[modname declname]|]; [|done].
  unfold try_except. run_monad.
  destruct (import_module rt modname w) as [[md|e] w1].
  - destruct (getattr_default rt md declname); simpl; [done|].
    intros [= <- <-]. done.
  - destruct (decide (exc_class e = ModuleNotFoundError)); done.
Qed.

(** The simple lookup leaves only non-[None] results too. *)
Lemma resolve_simple_not_None name w v w' :
  resolve_simple rt name w = (Ok v, w') → v ≠ PyNone.
Proof.
  unfold resolve_simple. unfold mbind at 1. unfold M_bind.
  destruct (sys_modules_values w) as [[loaded|e] w1]; [|done].
  unfold mbind, M_bind.
  match goal with |- context [match ?c w1 with _ => _ end] =>
    destruct (c w1) as [[[|r]|e] w2] end; run_monad; simpl; try done.
  intros [= <- <-]. done.
Qed.

(** A name that is registered with an object is resolved from the
    registry alone: the state, with its log of calls, is untouched. *)
Lemma resolve_name_registered name w r :
  GlobalAliases w !! name = Some (PyRef r) →
  resolve_name rt name w = (Ok (PyRef r), w).
Proof.
  intros H. unfold resolve_name. run_monad. by rewrite H.
Qed.

Lemma resolve_name_registered_None name w :
  GlobalAliases w !! name = Some PyNone →
  resolve_name rt name w = (Raise (mkExc AssertionError MsgNone), w).
Proof.
  intros H. unfold resolve_name. run_monad. by rewrite H.
Qed.

(** A name that is not registered is a qualified name when it has a dot
    and a simple name when it has none; the two never chain. *)
Lemma resolve_name_unregistered name w :
  GlobalAliases w !! name = None →
  resolve_name rt name w
  = if contains_dot name then resolve_qualified rt name w
    else resolve_simple rt name w.
Proof.
  intros H. unfold resolve_name. run_monad. rewrite H. simpl.
  destruct (contains_dot name).
  - destruct (resolve_qualified rt name w) as [[v|e] w'] eqn:E; [|done].
    apply resolve_qualified_not_None in E. destruct v; done.
  - simpl. by destruct (resolve_simple rt name w) as [[v|e] w'].
Qed.

(** *** The scan of the loaded modules *)

Lemma elem_of_candidates name loaded m :
  m ∈ candidates rt name loaded
  ↔ m ∈ loaded ∧
    ∃ r, module_dict rt m !! name = Some (PyRef r) ∧ truthy rt r = true.
Proof.
  unfold candidates. rewrite list_elem_of_filter. unfold getattr_default.
  split; intros [Ht Hin]; (split; [|done]) || split; try done.
  - destruct (module_dict rt m !! name) as [[|r]|]; simpl in Ht; try done.
    exists r. split; [done|]. by apply Is_true_true.
  - destruct Hin as (r & -> & Hr). simpl. by apply Is_true_true.
Qed.

Lemma candidate_getattr name loaded m :
  m ∈ candidates rt name loaded →
  getattr rt m name = Ok (getattr_default rt m name)
  ∧ is_None (getattr_default rt m name) = false.
Proof.
  intros (_ & r & Hr & _)%elem_of_candidates.
  unfold getattr, getattr_default. by rewrite Hr.
Qed.

Lemma mapM_Ok {A B} (f : A → Result B) (g : A → B) l :
  Forall (λ x, f x = Ok (g x)) l → mapM f l = Ok (g <$> l).
Proof.
  induction 1 as [|x l Hx _ IH]; simpl; [done|]. by rewrite Hx, IH.
Qed.

(** Every candidate has the attribute, so reading it again on line 71
    cannot fail. *)
Lemma candidates_values name loaded :
  mapM (λ m, getattr rt m name) (candidates rt name loaded)
  = Ok ((λ m, getattr_default rt m name) <$> candidates rt name loaded).
Proof.
  apply mapM_Ok, Forall_forall. intros m Hm.
  by apply candidate_getattr in Hm as [-> _].
Qed.

Lemma resolve_simple_run name w :
  resolve_simple rt name w
  = (scan_result rt name (sys_modules w).*2, log_call EvScan w).
Proof.
  unfold resolve_simple, sys_modules_values, scan_result. run_monad. simpl.
  pose proof (candidates_values name (sys_modules w).*2) as Hvals.
  pose proof (candidate_getattr name (sys_modules w).*2) as Hattr.
  destruct (candidates rt name (sys_modules w).*2) as [|m [|m' mods]].
  - done.
  - simpl. destruct (Hattr m) as [-> Hm]; [by left|]. by rewrite Hm.
  - rewrite !bool_decide_eq_true_2 by (simpl; lia).
    rewrite Hvals. simpl.
    destruct (bool_decide (1 < size _)); [done|].
    destruct (elements _) as [|m0 ?]; simpl; [done|].
    unfold getattr, read_member.
    by destruct (module_dict rt m0 !! name) as [[|r]|].
Qed.

Lemma resolve_name_aliases name w :
  GlobalAliases (resolve_name rt name w).2 = GlobalAliases w.
Proof.
  destruct (GlobalAliases w !! name) as [[|r]|] eqn:H.
  - by rewrite resolve_name_registered_None.
  - by rewrite (resolve_name_registered _ _ r).
  - rewrite resolve_name_unregistered by done.
    destruct (contains_dot name) eqn:Hdot.
    + apply contains_dot_rsplit in Hdot as (m & d & Hs).
      rewrite (resolve_qualified_run _ _ _ _ Hs).
      pose proof (import_module_aliases m w) as Hi.
      destruct (import_module rt m w) as [[md|e] w']; simpl in Hi.
      * by destruct (module_dict rt md !! d) as [[|?]|].
      * by destruct (decide (exc_class e = ModuleNotFoundError)).
    + by rewrite resolve_simple_run.
Qed.

End ResolveFacts.

(** ** Exceptions that [resolve_name] lets through *)

Lemma import_module_raises rt modname w e w' :
  import_module rt modname w = (Raise e, w') → ∃ text, exc_msg e = MsgText text.
Proof.
  rewrite import_module_run. simpl.
  destruct (modules_get modname (sys_modules w)); [done|].
  destruct (finder rt modname); intros [= <- <-]; simpl; eauto.
Qed.

Lemma scan_result_raises rt name loaded e :
  scan_result rt name loaded = Raise e →
  (exc_class e = ValueError ∧ is_Some (error_kind (exc_msg e)))
  ∨ ∃ text, exc_msg e = MsgText text.
Proof.
  unfold scan_result.
  destruct (candidates rt name loaded) as [|m [|m' mods]].
  - intros [= <-]. left. simpl. eauto.
  - done.
  - destruct (bool_decide (1 < size _)).
    + intros [= <-]. left. simpl. eauto.
    + destruct (elements _) as [|m0 ?].
      * intros [= <-]. right. simpl. eauto.
      * unfold read_member.
        destruct (module_dict rt m0 !! name) as [[|r]|]; intros [= <-]; simpl; eauto.
Qed.

(** Every way [resolve_name] can fail: the assertion, when [None] is
    registered; otherwise one of the four documented failures, raised as
    [ValueError], or an exception of the runtime with a text of its own. *)
Lemma resolve_name_raises rt name w e :
  (resolve_name rt name w).1 = Raise e →
  (e = mkExc AssertionError MsgNone ∧ GlobalAliases w !! name = Some PyNone)
  ∨ (GlobalAliases w !! name = None ∧
     ((exc_class e = ValueError ∧ is_Some (error_kind (exc_msg e)))
      ∨ ∃ text, exc_msg e = MsgText text)).
Proof.
  destruct (GlobalAliases w !! name) as [[|r]|] eqn:H.
  - rewrite resolve_name_registered_None by done. intros [= <-]. by left.
  - by rewrite (resolve_name_registered _ _ _ r).
  - rewrite resolve_name_unregistered by done. intros He. right. split; [done|].
    destruct (contains_dot name) eqn:Hdot.
    + apply contains_dot_rsplit in Hdot as (m & d & Hs).
      rewrite (resolve_qualified_run _ _ _ _ _ Hs) in He.
      destruct (import_module rt m w) as [[md|e'] w'] eqn:Hi.
      * destruct (module_dict rt md !! d) as [[|?]|]; simpl in He;
          try done; injection He as <-; left; simpl; eauto.
      * destruct (decide (exc_class e' = ModuleNotFoundError)); simpl in He;
          injection He as <-.
        -- left. simpl. eauto.
        -- right. by eapply import_module_raises.
    + rewrite resolve_simple_run in He. by eapply scan_result_raises.
Qed.

(** ** Registration and resolution *)

Lemma exec_op_aliases rt w op name :
  ¬ registers name op →
  GlobalAliases (exec_op rt w op) !! name = GlobalAliases w !! name.
Proof.
  destruct op as [names obj|n]; simpl; intros Hno.
  - rewrite store_names_lookup. by rewrite decide_False.
  - by rewrite resolve_name_aliases.
Qed.

Lemma exec_ops_aliases rt ops w name :
  Forall (λ op, ¬ registers name op) ops →
  GlobalAliases (exec_ops rt ops w) !! name = GlobalAliases w !! name.
Proof.
  unfold exec_ops. intros Hops. revert w.
  induction Hops as [|op ops Hop _ IH]; intros w; simpl; [done|].
  rewrite IH. by apply exec_op_aliases.
Qed.

Lemma register_all_other regs w name :
  Forall (λ reg : list string * PyObj, name ∉ reg.1) regs →
  GlobalAliases (register_all regs w) !! name = GlobalAliases w !! name.
Proof.
  unfold register_all. intros Hregs. revert w.
  induction Hregs as [|reg regs Hreg _ IH]; intros w; cbn [foldl]; [done|].
  rewrite IH, alias_lookup. by rewrite decide_False.
Qed.

(** The registry entry of a name is the object of the latest call that
    registered the name. *)
Lemma register_all_last regs w name obj :
  registered_last name obj regs →
  GlobalAliases (register_all regs w) !! name = Some obj.
Proof.
  intros (before & names & after & -> & Hin & Hafter).
  unfold register_all. rewrite foldl_app. cbn [foldl fst snd].
  fold (register_all before w).
  fold (register_all after (alias names obj (register_all before w)).2).
  rewrite register_all_other by done.
  rewrite alias_lookup. by rewrite decide_True.
Qed.

(** C1 (as amended).  Round trip: for every name and every object other
    than [None], registering the object under the name returns the object
    unchanged, and as long as no later call registers the name again,
    [resolve_name] returns that very object.  The value returned is the
    reference that was stored, not a copy. *)
Theorem alias_resolve_round_trip rt name obj later w :
  obj ≠ PyNone →
  Forall (λ op, ¬ registers name op) later →
  round_trip rt name obj later w.
Proof.
  intros Hobj Hlater. split; [done|].
  destruct obj as [|r]; [done|].
  rewrite (resolve_name_registered _ _ _ r); [done|].
  rewrite exec_ops_aliases by done.
  rewrite alias_lookup. rewrite decide_True; [done|]. by left.
Qed.

Lemma alias_resolve_round_trip_witness :
  round_trip Demo.rt "Net" (PyRef 7%positive)
    [OpResolve "pkg.d.Q"; OpAlias ["Other"; "Third"] (PyRef 8%positive);
     OpResolve "f"]
    Demo.world.
Proof.
  apply alias_resolve_round_trip.
  - discriminate.
  - apply (bool_decide_unpack _). vm_compute. reflexivity.
Defined.

(** With [None] as the object the round trip fails: the call that
    resolves the name ends in the assertion of line 47. *)
Lemma round_trip_None_fails :
  ¬ round_trip Demo.rt "Net" PyNone [] Demo.world.
Proof. intros [_ H]. vm_compute in H. discriminate. Qed.

(** C3 (as amended).  Strategy precedence: for every name that the
    registry binds to an object other than [None] at the time of the call,
    [resolve_name] returns the registered object and leaves the state as it
    found it; the log of calls is unchanged, so neither the import of the
    qualified lookup nor the scan of the loaded modules was attempted.
    This holds for dotted names as for any other. *)
Theorem registry_takes_precedence rt name obj w :
  GlobalAliases w !! name = Some obj →
  obj ≠ PyNone →
  registry_first rt name obj w.
Proof.
  intros Hreg Hobj. destruct obj as [|r]; [done|].
  by apply resolve_name_registered.
Qed.

Lemma registry_takes_precedence_witness :
  registry_first Demo.rt "pkg.a.Member" (PyRef 7%positive) Demo.world_shadow.
Proof.
  apply registry_takes_precedence.
  - vm_compute. reflexivity.
  - discriminate.
Defined.

(** The same dotted name, when it is not registered, is imported. *)
Example qualified_when_unregistered :
  resolve_name Demo.rt "pkg.a.Member" Demo.world
  = (Ok (PyRef 10%positive), log_call (EvImport "pkg.a") Demo.world).
Proof. vm_compute. reflexivity. Qed.

(** A name registered with [None] is present in the registry, and the
    call does not return the registered object. *)
Lemma registry_first_None_fails :
  GlobalAliases Demo.world_None !! "pkg.a.Member" = Some PyNone ∧
  ¬ registry_first Demo.rt "pkg.a.Member" PyNone Demo.world_None.
Proof.
  split; [vm_compute; reflexivity|].
  unfold registry_first. vm_compute. discriminate.
Qed.

(** C7 (as amended).  Last registration wins: after any sequence of
    registrations, the registry entry of a name is the object of the most
    recent call that registered the name; and when that object is not
    [None], resolving the name returns it. *)
Theorem last_registration_wins rt name obj regs w :
  registered_last name obj regs →
  GlobalAliases (register_all regs w) !! name = Some obj ∧
  (obj ≠ PyNone → last_wins rt name obj (register_all regs w)).
Proof.
  intros Hlast. pose proof (register_all_last regs w name obj Hlast) as Hreg.
  split; [done|]. intros Hobj. split; [done|].
  destruct obj as [|r]; [done|].
  by rewrite (resolve_name_registered _ _ _ r).
Qed.

Lemma last_registration_wins_witness :
  GlobalAliases (register_all Demo.regs Demo.world) !! "Net"
  = Some (PyRef 8%positive) ∧
  (PyRef 8%positive ≠ PyNone →
   last_wins Demo.rt "Net" (PyRef 8%positive)
     (register_all Demo.regs Demo.world)).
Proof.
  apply last_registration_wins.
  exists [(["Net"; "Other"], PyRef 7%positive); (["Third"], PyRef 9%positive)],
    ["Net"], [(["Other"], PyRef 9%positive)].
  split; [reflexivity|]. split; [by left|].
  apply (bool_decide_unpack _). vm_compute. reflexivity.
Defined.

(** When the second of two objects registered under a name is [None],
    resolving the name does not return it. *)
Lemma last_wins_None_fails :
  registered_last "Net" PyNone Demo.regs_None ∧
  ¬ last_wins Demo.rt "Net" PyNone (register_all Demo.regs_None Demo.world).
Proof.
  split.
  - exists [(["Net"], PyRef 7%positive)], ["Net"], [].
    split; [reflexivity|]. split; [by left|constructor].
  - intros [_ H]. vm_compute in H. discriminate.
Qed.

(** C8.  When [None] is registered under a name, resolving the name
    neither returns [None] nor fails with one of the four documented
    kinds: the assertion of line 47 fails, and the state is left as it
    was.  Conversely the assertion fails for no other reason, so it holds
    exactly when the name is not registered with [None]. *)
Theorem resolve_None_registered rt name w :
  (GlobalAliases w !! name = Some PyNone
   ↔ (resolve_name rt name w).1 = Raise (mkExc AssertionError MsgNone)) ∧
  (GlobalAliases w !! name = Some PyNone →
   resolve_name rt name w = (Raise (mkExc AssertionError MsgNone), w) ∧
   (resolve_name rt name w).1 ≠ Ok PyNone ∧
   ∀ k, ¬ raises_kind (resolve_name rt name w).1 k).
Proof.
  split; [split|].
  - intros H. by rewrite resolve_name_registered_None.
  - intros H. apply resolve_name_raises in H as [[_ H]|[_ [[H _]|[t H]]]]; done.
  - intros H. rewrite resolve_name_registered_None by done.
    repeat split; [done|]. intros k Hk. simpl in Hk. done.
Qed.

Lemma resolve_None_registered_witness :
  resolve_name Demo.rt "Net" Demo.world_None
  = (Raise (mkExc AssertionError MsgNone), Demo.world_None) ∧
  (resolve_name Demo.rt "Net" Demo.world_None).1 ≠ Ok PyNone ∧
  ∀ k, ¬ raises_kind (resolve_name Demo.rt "Net" Demo.world_None).1 k.
Proof.
  apply resolve_None_registered. vm_compute. reflexivity.
Defined.

(** ** Qualified names *)

(** C2 (as amended).  For every name with a separator that is not in the
    registry and whose module part imports, [resolve_name] fails with the
    missing-member kind exactly when the module has no attribute of the
    member's name or binds it to [None]; otherwise it returns the value the
    module binds the member's name to. *)
Theorem missing_member_exactly_when_None rt name modname declname md w :
  GlobalAliases w !! name = None →
  rsplit_last name = Some (modname, declname) →
  (import_module rt modname w).1 = Ok md →
  missing_member_iff_None rt name declname md w.
Proof.
  intros Hreg Hsplit Himp. unfold missing_member_iff_None, getattr_default.
  rewrite resolve_name_unregistered by done.
  rewrite (rsplit_dotted _ _ _ Hsplit).
  rewrite (resolve_qualified_run _ _ _ _ _ Hsplit).
  destruct (import_module rt modname w) as [[md'|e] w']; simpl in Himp; [|done].
  injection Himp as ->.
  destruct (module_dict rt md !! declname) as [[|r]|]; simpl.
  - split; [done|]. by intros v [= <-].
  - split; [split; done|]. by intros v [= <-].
  - split; done.
Qed.

Lemma missing_member_exactly_when_None_witness :
  missing_member_iff_None Demo.rt "pkg.a.Member" "Member" 1%positive Demo.world.
Proof.
  apply (missing_member_exactly_when_None _ _ "pkg.a");
    vm_compute; reflexivity.
Defined.

(** [pkg.a] binds [Y] to [None]: the module has the member, and the call
    fails with the missing-member kind all the same. *)
Lemma missing_member_None_bound :
  GlobalAliases Demo.world !! "pkg.a.Y" = None ∧
  rsplit_last "pkg.a.Y" = Some ("pkg.a", "Y") ∧
  (import_module Demo.rt "pkg.a" Demo.world).1 = Ok 1%positive ∧
  ¬ missing_member_iff_lacking Demo.rt "pkg.a.Y" "Y" 1%positive Demo.world.
Proof.
  repeat split; try (vm_compute; reflexivity).
  intros [[H _] _].
  assert (Demo.dict 1%positive !! "Y" = None) as Habs;
    [apply H; vm_compute; reflexivity|].
  vm_compute in Habs. discriminate.
Qed.



(** ** Simple names: the scan of the loaded modules *)

Lemma elem_of_defining_modules rt vals d :
  d ∈ defining_modules rt vals ↔ ∃ v, v ∈ vals ∧ getmodule rt v = Some d.
Proof.
  unfold defining_modules. rewrite elem_of_set_omap. split.
  - intros (o & Ho & Hid).
    apply elem_of_list_to_set, list_elem_of_fmap in Ho as (v & -> & Hv).
    by exists v.
  - intros (v & Hv & Hd). exists (Some d). split; [|done].
    apply elem_of_list_to_set, list_elem_of_fmap. by exists v.
Qed.

Lemma defining_modules_unknown rt vals :
  Forall (λ v, getmodule rt v = None) vals → defining_modules rt vals = ∅.
Proof.
  intros Hall. apply elem_of_equiv_empty_L. intros d.
  rewrite elem_of_defining_modules. intros (v & Hv & Hd).
  rewrite Forall_forall in Hall. rewrite (Hall v Hv) in Hd. done.
Qed.

Lemma resolve_name_simple rt name w :
  GlobalAliases w !! name = None →
  contains_dot name = false →
  resolve_name rt name w
  = (scan_result rt name (sys_modules w).*2, log_call EvScan w).
Proof.
  intros Hreg Hdot. rewrite resolve_name_unregistered by done.
  rewrite Hdot. apply resolve_simple_run.
Qed.

(** With several candidates the outcome is decided by the set of their
    defining modules. *)
Lemma scan_result_several rt name loaded :
  1 < length (candidates rt name loaded) →
  scan_result rt name loaded
  = let foundmods :=
      defining_modules rt
        ((λ m, getattr_default rt m name) <$> candidates rt name loaded) in
    if bool_decide (1 < size foundmods) then
      Raise (mkExc ValueError
               (MsgAmbiguous (module_name rt <$> elements foundmods) name))
    else
      match elements foundmods with
      | [] => Raise (mkExc IndexError (MsgText "list index out of range"))
      | m0 :: _ => read_member rt name m0
      end.
Proof.
  unfold scan_result.
  destruct (candidates rt name loaded) as [|m [|m' mods]]; simpl; [lia|lia|done].
Qed.

(** No candidate: the not-found kind. *)
Lemma scan_no_candidate rt name w :
  GlobalAliases w !! name = None →
  contains_dot name = false →
  candidates rt name (sys_modules w).*2 = [] →
  (resolve_name rt name w).1
  = Raise (mkExc ValueError (MsgNoModuleWithMember name)).
Proof.
  intros Hreg Hdot Hnone. rewrite resolve_name_simple by done.
  unfold scan_result. by rewrite Hnone.
Qed.

(** One candidate: its attribute, which is not [None]. *)
Lemma scan_one_candidate rt name w m :
  GlobalAliases w !! name = None →
  contains_dot name = false →
  candidates rt name (sys_modules w).*2 = [m] →
  ∃ r, module_dict rt m !! name = Some (PyRef r) ∧
       (resolve_name rt name w).1 = Ok (PyRef r).
Proof.
  intros Hreg Hdot Hone. rewrite resolve_name_simple by done.
  unfold scan_result. rewrite Hone. simpl.
  assert (m ∈ candidates rt name (sys_modules w).*2) as Hm
    by (rewrite Hone; by left).
  apply elem_of_candidates in Hm as (_ & r & Hr & _).
  exists r. unfold getattr_default. by rewrite Hr.
Qed.

(** Several candidates: the ambiguity is raised exactly when more than
    one defining module remains, and the message names those modules. *)
Lemma scan_ambiguous rt name w :
  GlobalAliases w !! name = None →
  contains_dot name = false →
  1 < length (candidates rt name (sys_modules w).*2) →
  let foundmods := defining_modules rt (candidate_values rt name w) in
  (raises_kind (resolve_name rt name w).1 AmbiguousNameKind
   ↔ 1 < size foundmods) ∧
  (1 < size foundmods →
   (resolve_name rt name w).1
   = Raise (mkExc ValueError
              (MsgAmbiguous (module_name rt <$> elements foundmods) name))).
Proof.
  intros Hreg Hdot Hlen. rewrite resolve_name_simple by done.
  rewrite scan_result_several by done. unfold candidate_values. simpl.
  destruct (bool_decide (1 < size _)) eqn:Hsz.
  - apply bool_decide_eq_true in Hsz. simpl. by repeat split.
  - apply bool_decide_eq_false in Hsz. split; [|done]. split; [|done].
    destruct (elements _) as [|m0 ?]; simpl; [done|].
    unfold read_member. by destruct (module_dict rt m0 !! name) as [[|?]|].
Qed.

(** Several candidates and one defining module that itself binds the
    name to an object: that object is returned. *)
Lemma scan_one_defining_module rt name w d r :
  GlobalAliases w !! name = None →
  contains_dot name = false →
  1 < length (candidates rt name (sys_modules w).*2) →
  defining_modules rt (candidate_values rt name w) = {[d]} →
  module_dict rt d !! name = Some (PyRef r) →
  (resolve_name rt name w).1 = Ok (PyRef r).
Proof.
  intros Hreg Hdot Hlen Hone Hr. rewrite resolve_name_simple by done.
  rewrite scan_result_several by done. unfold candidate_values in Hone.
  simpl. rewrite Hone. rewrite size_singleton, elements_singleton. simpl.
  unfold read_member. by rewrite Hr.
Qed.

(** C9.  In the scan, when several loaded modules expose the name and
    [inspect.getmodule] knows no module for any of the values they bind it
    to, the set of defining modules is empty and line 81 indexes the empty
    list: the call ends in [IndexError], not in the not-found failure. *)
Theorem scan_no_defining_module rt name w :
  GlobalAliases w !! name = None →
  contains_dot name = false →
  1 < length (candidates rt name (sys_modules w).*2) →
  Forall (λ v, getmodule rt v = None) (candidate_values rt name w) →
  defining_modules rt (candidate_values rt name w) = ∅ ∧
  resolve_name rt name w
  = (Raise (mkExc IndexError (MsgText "list index out of range")),
     log_call EvScan w) ∧
  ¬ raises_kind (resolve_name rt name w).1 NotFoundKind.
Proof.
  intros Hreg Hdot Hlen Hunknown.
  pose proof (defining_modules_unknown _ _ Hunknown) as Hempty.
  split; [done|]. rewrite resolve_name_simple by done.
  rewrite scan_result_several by done. unfold candidate_values in Hempty.
  simpl. rewrite Hempty. rewrite size_empty, elements_empty. simpl.
  split; [done|]. simpl. done.
Qed.

Lemma scan_no_defining_module_witness :
  defining_modules Demo.rt (candidate_values Demo.rt "N" Demo.world) = ∅ ∧
  resolve_name Demo.rt "N" Demo.world
  = (Raise (mkExc IndexError (MsgText "list index out of range")),
     log_call EvScan Demo.world) ∧
  ¬ raises_kind (resolve_name Demo.rt "N" Demo.world).1 NotFoundKind.
Proof.
  apply scan_no_defining_module.
  - vm_compute. reflexivity.
  - vm_compute. reflexivity.
  - vm_compute. lia.
  - apply (bool_decide_unpack _). vm_compute. reflexivity.
Defined.

(** The not-found failure of the scan has two sources: no candidate at
    all, or several candidates whose one defining module binds the name to
    [None]. *)
Lemma scan_not_found_cases rt name w :
  GlobalAliases w !! name = None →
  contains_dot name = false →
  raises_kind (resolve_name rt name w).1 NotFoundKind →
  candidates rt name (sys_modules w).*2 = []
  ∨ (1 < length (candidates rt name (sys_modules w).*2) ∧
     ∃ d, d ∈ defining_modules rt (candidate_values rt name w) ∧
          size (defining_modules rt (candidate_values rt name w)) = 1 ∧
          module_dict rt d !! name = Some PyNone).
Proof.
  intros Hreg Hdot. rewrite resolve_name_simple by done. simpl.
  unfold scan_result, candidate_values.
  destruct (candidates rt name (sys_modules w).*2) as [|m [|m' mods]];
    [by left|done|].
  intros Hk. right. split; [simpl; lia|].
  destruct (bool_decide (1 < size _)) eqn:Hsz; [done|].
  apply bool_decide_eq_false in Hsz.
  destruct (elements _) as [|d l] eqn:Hel; [done|].
  exists d. split; [apply elem_of_elements; rewrite Hel; by left|].
  unfold size, set_size in *. simpl in *. rewrite Hel in *. simpl in *.
  split; [destruct l; simpl in *; [done|lia]|].
  unfold read_member in Hk.
  by destruct (module_dict rt d !! name) as [[|?]|].
Qed.

(** C4, at the state [Demo.world].  [pkg.b] and [pkg.c] both expose [X],
    each by [from pkg.a import f as X]; the name is not registered and has
    no separator; the two values have one defining module, [pkg.a]; and
    [pkg.a] has no attribute [X].  The call does not return: line 81 reads
    [X] from [pkg.a] and ends in [AttributeError]. *)
Theorem reexport_under_new_name_fails :
  GlobalAliases Demo.world !! "X" = None ∧
  contains_dot "X" = false ∧
  candidates Demo.rt "X" (sys_modules Demo.world).*2 = [2; 3]%positive ∧
  candidate_values Demo.rt "X" Demo.world = [PyRef 20; PyRef 20]%positive ∧
  defining_modules Demo.rt (candidate_values Demo.rt "X" Demo.world)
  = {[ 1%positive ]} ∧
  module_dict Demo.rt 1%positive !! "X" = None ∧
  (resolve_name Demo.rt "X" Demo.world).1
  = Raise (mkExc AttributeError (MsgText "module has no attribute")).
Proof. repeat split; vm_compute; reflexivity. Qed.

(** C5, at the state [Demo.world].  [pkg.b] and [pkg.c] both expose a true
    [Y], so the candidate set is not empty; their one defining module
    [pkg.a] binds [Y] to [None]; and the call fails with the not-found
    kind. *)
Theorem not_found_with_candidates :
  GlobalAliases Demo.world !! "Y" = None ∧
  contains_dot "Y" = false ∧
  candidates Demo.rt "Y" (sys_modules Demo.world).*2 = [2; 3]%positive ∧
  module_dict Demo.rt 1%positive !! "Y" = Some PyNone ∧
  (resolve_name Demo.rt "Y" Demo.world).1
  = Raise (mkExc ValueError (MsgNoModuleWithMember "Y")).
Proof. repeat split; vm_compute; reflexivity. Qed.

(** A value that is present and false does not make its module a
    candidate: [ZERO] is bound in [pkg.a] and is not found. *)
Example falsy_is_not_a_candidate :
  module_dict Demo.rt 1%positive !! "ZERO" = Some (PyRef 11%positive) ∧
  candidates Demo.rt "ZERO" (sys_modules Demo.world).*2 = [] ∧
  (resolve_name Demo.rt "ZERO" Demo.world).1
  = Raise (mkExc ValueError (MsgNoModuleWithMember "ZERO")).
Proof. repeat split; vm_compute; reflexivity. Qed.

(** Two modules that each define the name: ambiguous.  One module that
    imports what the other defines, under the same name: resolved. *)
Example two_definitions_are_ambiguous :
  ∃ modnames,
    (resolve_name Demo.rt "Own" Demo.world).1
    = Raise (mkExc ValueError (MsgAmbiguous modnames "Own")) ∧
    modnames ≡ₚ ["pkg.b"; "pkg.c"].
Proof.
  eexists. split; [vm_compute; reflexivity|]. apply Permutation_swap.
Qed.

Example import_is_not_ambiguous :
  candidates Demo.rt "Member" (sys_modules Demo.world).*2 = [1; 2]%positive ∧
  (resolve_name Demo.rt "Member" Demo.world).1 = Ok (PyRef 10%positive).
Proof. split; vm_compute; reflexivity. Qed.

(** ** The class of the failures *)

(** C10.  Whenever [resolve_name] fails with one of the four documented
    kinds, the exception raised is a [ValueError]; the kind is carried by
    the message alone. *)
Theorem failure_kinds_are_ValueError rt name w k :
  raises_kind (resolve_name rt name w).1 k →
  ∃ msg, (resolve_name rt name w).1 = Raise (mkExc ValueError msg) ∧
         error_kind msg = Some k.
Proof.
  destruct (resolve_name rt name w) as [[v|e] w'] eqn:Hres; simpl; [done|].
  intros Hk.
  assert ((resolve_name rt name w).1 = Raise e) as Hraise by by rewrite Hres.
  apply resolve_name_raises in Hraise as [[-> _]|[_ [[Hc _]|[t Ht]]]].
  - done.
  - destruct e as [c msg]; simpl in *. subst c. by exists msg.
  - rewrite Ht in Hk. done.
Qed.

Lemma failure_kinds_are_ValueError_witness :
  ∃ msg, (resolve_name Demo.rt "pkg.e.Q" Demo.world).1
         = Raise (mkExc ValueError msg) ∧
         error_kind msg = Some ModuleNotFoundKind.
Proof.
  apply failure_kinds_are_ValueError. vm_compute. reflexivity.
Defined.

(** Each of the four kinds does occur, and with one class. *)
Example four_kinds_one_class :
  (resolve_name Demo.rt "pkg.e.Q" Demo.world).1
  = Raise (mkExc ValueError (MsgModuleNotFound "pkg.e")) ∧
  (resolve_name Demo.rt "pkg.a.Q" Demo.world).1
  = Raise (mkExc ValueError (MsgNoMember "pkg.a" "Q")) ∧
  (resolve_name Demo.rt "Nope" Demo.world).1
  = Raise (mkExc ValueError (MsgNoModuleWithMember "Nope")) ∧
  raises_kind (resolve_name Demo.rt "Own" Demo.world).1 AmbiguousNameKind ∧
  ∃ msg, (resolve_name Demo.rt "Own" Demo.world).1
         = Raise (mkExc ValueError msg).
Proof.
  repeat split; try (vm_compute; reflexivity).
  eexists. vm_compute. reflexivity.
Qed.

(** A [ValueError] that is none of the four kinds: the import system's
    refusal of an empty module name passes through [resolve_name]. *)
Example empty_module_name :
  (resolve_name Demo.rt ".Member" Demo.world).1
  = Raise (mkExc ValueError (MsgText "Empty module name")).
Proof. vm_compute. reflexivity. Qed.

(** * Further properties of [alias] *)

Lemma store_names_app names1 names2 obj (g : gmap string PyObj) :
  store_names (names1 ++ names2) obj g
  = store_names names2 obj (store_names names1 obj g).
Proof. unfold store_names. apply foldl_app. Qed.

Lemma store_names_dom names obj (g : gmap string PyObj) :
  dom (store_names names obj g) = dom g ∪ list_to_set names.
Proof.
  unfold store_names. revert g.
  induction names as [|n names IH]; intros g; simpl.
  - by rewrite (right_id_L ∅ (∪)).
  - rewrite IH, dom_insert_L.
    rewrite (comm_L (∪) {[n]} (dom g)). by rewrite (assoc_L (∪)).
Qed.

Lemma world_eq w1 w2 :
  GlobalAliases w1 = GlobalAliases w2 →
  sys_modules w1 = sys_modules w2 →
  calls w1 = calls w2 →
  w1 = w2.
Proof. destruct w1, w2; simpl. by intros -> -> ->. Qed.

(** X1.  [alias] changes the registry at the names it is given and
    nowhere else: every other name keeps its entry, the table of loaded
    modules is untouched, and a decorator built from no name at all leaves
    the whole state as it was. *)
Theorem alias_frame names obj w :
  (alias names obj w).1 = Ok obj ∧
  sys_modules (alias names obj w).2 = sys_modules w ∧
  calls (alias names obj w).2 = calls w ∧
  (∀ n, n ∈ names → GlobalAliases (alias names obj w).2 !! n = Some obj) ∧
  (∀ n, n ∉ names →
        GlobalAliases (alias names obj w).2 !! n = GlobalAliases w !! n) ∧
  (names = [] → alias names obj w = (Ok obj, w)).
Proof.
  repeat split; try done.
  - intros n Hn. rewrite alias_lookup. by rewrite decide_True.
  - intros n Hn. rewrite alias_lookup. by rewrite decide_False.
  - intros ->. rewrite alias_run. f_equal. by apply world_eq.
Qed.

(** X2.  Only the set of names counts: two tuples with the same members,
    in whatever order and with whatever repetitions, give decorators with
    the same effect. *)
Theorem alias_names_as_set names names' obj w :
  (∀ n, n ∈ names ↔ n ∈ names') →
  alias names obj w = alias names' obj w.
Proof.
  intros Hsame. rewrite !alias_run. f_equal. unfold set_aliases. f_equal.
  apply map_eq. intros n. rewrite !store_names_lookup.
  destruct (decide (n ∈ names)) as [Hin|Hout].
  - rewrite decide_True; [done|]. by apply Hsame.
  - rewrite decide_False; [done|]. by rewrite <- Hsame.
Qed.

Lemma alias_names_as_set_witness :
  alias ["Net"; "Other"; "Net"] (PyRef 7%positive) Demo.world
  = alias ["Other"; "Net"] (PyRef 7%positive) Demo.world.
Proof.
  apply alias_names_as_set. intros n.
  rewrite !elem_of_cons, !elem_of_nil. tauto.
Defined.

(** X3.  Stacked decorators: applying the decorator for [names2] and then
    the one for [names1] to what it returns is the same as applying the one
    decorator made from all the names; the object comes back unchanged
    through both. *)
Theorem alias_stacked names1 names2 obj w :
  (alias names2 obj ≫= alias names1) w = alias (names2 ++ names1) obj w.
Proof.
  unfold mbind, M_bind. rewrite !alias_run. f_equal.
  unfold set_aliases. simpl. f_equal. by rewrite store_names_app.
Qed.

(** X4.  Registering again what is registered changes nothing: the second
    of two equal calls leaves the state of the first. *)
Theorem alias_idempotent names obj w :
  alias names obj (alias names obj w).2 = alias names obj w.
Proof.
  rewrite !alias_run. simpl. f_equal. unfold set_aliases. simpl. f_equal.
  apply map_eq. intros n. rewrite !store_names_lookup.
  by destruct (decide (n ∈ names)).
Qed.

(** X5.  Two registrations commute when no name is common to both, and
    also when they register the same object. *)
Theorem alias_commute names1 obj1 names2 obj2 w :
  (∀ n, n ∈ names1 → n ∉ names2) ∨ obj1 = obj2 →
  (alias names2 obj2 (alias names1 obj1 w).2).2
  = (alias names1 obj1 (alias names2 obj2 w).2).2.
Proof.
  intros Hfree. rewrite !alias_run. simpl. unfold set_aliases. simpl. f_equal.
  apply map_eq. intros n. rewrite !store_names_lookup.
  destruct (decide (n ∈ names2)) as [H2|H2],
           (decide (n ∈ names1)) as [H1|H1]; try done.
  destruct Hfree as [Hdisj| ->]; [|done]. by apply Hdisj in H1.
Qed.

Lemma alias_commute_witness :
  (alias ["Third"] (PyRef 8%positive)
     (alias ["Net"; "Other"] (PyRef 7%positive) Demo.world).2).2
  = (alias ["Net"; "Other"] (PyRef 7%positive)
       (alias ["Third"] (PyRef 8%positive) Demo.world).2).2.
Proof.
  apply alias_commute. left. intros n.
  rewrite !elem_of_cons, !elem_of_nil.
  intros [->|[->|[]]] [H|[]]; discriminate H.
Defined.

(** * Further properties of programs over the registry *)



(** X7.  The registry never loses a name: a name that is registered stays
    registered through every later call, and each registration adds
    exactly its names. *)
Theorem registry_only_grows rt ops w :
  dom (GlobalAliases w) ⊆ dom (GlobalAliases (exec_ops rt ops w)) ∧
  ∀ names obj,
    dom (GlobalAliases (alias names obj w).2)
    = dom (GlobalAliases w) ∪ list_to_set names.
Proof.
  split.
  - unfold exec_ops. revert w.
    induction ops as [|op ops IH]; intros w; simpl; [done|].
    etrans; [|apply IH]. destruct op as [names obj|name]; simpl.
    + rewrite store_names_dom. apply union_subseteq_l.
    + by rewrite resolve_name_aliases.
  - intros names obj. rewrite alias_run. simpl. apply store_names_dom.
Qed.

Lemma exec_op_None_free rt w op :
  None_free w → registers_object op → None_free (exec_op rt w op).
Proof.
  intros Hw Hop n. destruct op as [names obj|name]; simpl in *.
  - rewrite store_names_lookup. destruct (decide (n ∈ names)); [|apply Hw].
    by intros [= ->].
  - rewrite resolve_name_aliases. apply Hw.
Qed.

(** X8.  When the registry holds no [None] and only objects are
    registered, it never comes to hold [None], and the assertion of
    line 47 fails in no later call of [resolve_name]. *)
Theorem assertion_never_fails rt ops w name :
  None_free w →
  Forall registers_object ops →
  None_free (exec_ops rt ops w) ∧
  (resolve_name rt name (exec_ops rt ops w)).1
  ≠ Raise (mkExc AssertionError MsgNone).
Proof.
  intros Hw Hops.
  assert (None_free (exec_ops rt ops w)) as Hfree.
  { unfold exec_ops. revert w Hw.
    induction Hops as [|op ops Hop _ IH]; intros w Hw; simpl; [done|].
    apply IH. by apply exec_op_None_free. }
  split; [done|]. intros Hraise.
  apply resolve_name_raises in Hraise as [[_ H]|[_ [[H _]|[t H]]]]; try done.
  by apply Hfree in H.
Qed.

Lemma assertion_never_fails_witness :
  None_free
    (exec_ops Demo.rt
       [OpAlias ["Net"] (PyRef 7%positive); OpResolve "pkg.d.Q";
        OpAlias ["Net"; "Other"] (PyRef 8%positive)]
       Demo.world) ∧
  (resolve_name Demo.rt "Net"
     (exec_ops Demo.rt
        [OpAlias ["Net"] (PyRef 7%positive); OpResolve "pkg.d.Q";
         OpAlias ["Net"; "Other"] (PyRef 8%positive)]
        Demo.world)).1
  ≠ Raise (mkExc AssertionError MsgNone).
Proof.
  apply assertion_never_fails.
  - intros n. vm_compute. discriminate.
  - apply (bool_decide_unpack _). vm_compute. reflexivity.
Defined.

(** * Further properties of [resolve_name] *)

(** X9.  [resolve_name] never returns [None]: whichever strategy finds
    the object, what comes back is an object. *)
Theorem resolve_never_returns_None rt name w :
  (resolve_name rt name w).1 ≠ Ok PyNone.
Proof.
  destruct (GlobalAliases w !! name) as [[|r]|] eqn:Hreg.
  - by rewrite resolve_name_registered_None.
  - by rewrite (resolve_name_registered _ _ _ r).
  - rewrite resolve_name_unregistered by done.
    destruct (contains_dot name).
    + destruct (resolve_qualified rt name w) as [[v|e] w'] eqn:E; [|done].
      apply resolve_qualified_not_None in E. simpl. congruence.
    + destruct (resolve_simple rt name w) as [[v|e] w'] eqn:E; [|done].
      apply resolve_simple_not_None in E. simpl. congruence.
Qed.

(** X10.  What a call of [resolve_name] does to the state depends on the
    strategy alone, not on its outcome.  A registered name leaves the state
    as it is.  An unregistered name without separator reads the table of
    loaded modules and imports nothing.  An unregistered name with a
    separator leaves the state the import of its module part leaves, also
    when the member is then missing, and never scans the loaded modules. *)
Theorem resolve_state_effect rt name w :
  (is_Some (GlobalAliases w !! name) → (resolve_name rt name w).2 = w) ∧
  (GlobalAliases w !! name = None → contains_dot name = false →
   (resolve_name rt name w).2 = log_call EvScan w) ∧
  (∀ modname declname,
     GlobalAliases w !! name = None →
     rsplit_last name = Some (modname, declname) →
     (resolve_name rt name w).2 = (import_module rt modname w).2 ∧
     EvScan ∉ drop (length (calls w)) (calls (resolve_name rt name w).2)).
Proof.
  split; [|split].
  - intros [[|r] Hreg].
    + by rewrite resolve_name_registered_None.
    + by rewrite (resolve_name_registered _ _ _ r).
  - intros Hreg Hdot. by rewrite resolve_name_simple.
  - intros modname declname Hreg Hsplit.
    rewrite resolve_name_unregistered by done.
    rewrite (rsplit_dotted _ _ _ Hsplit).
    rewrite (resolve_qualified_run _ _ _ _ _ Hsplit).
    pose proof (import_module_calls rt modname w) as Hcalls.
    destruct (import_module rt modname w) as [[md|e] w'] eqn:Hi; simpl in *.
    + assert (EvScan ∉ drop (length (calls w)) (calls w')) as Hno.
      { rewrite Hcalls, drop_app_length.
        intros [H|H]%elem_of_cons; [done|by apply elem_of_nil in H]. }
      by destruct (module_dict rt md !! declname) as [[|?]|].
    + assert (EvScan ∉ drop (length (calls w)) (calls w')) as Hno.
      { rewrite Hcalls, drop_app_length.
        intros [H|H]%elem_of_cons; [done|by apply elem_of_nil in H]. }
      by destruct (decide (exc_class e = ModuleNotFoundError)).
Qed.

Lemma resolve_state_effect_witness :
  (resolve_name Demo.rt "pkg.d.Q" Demo.world).2
  = (import_module Demo.rt "pkg.d" Demo.world).2 ∧
  EvScan ∉ drop (length (calls Demo.world))
             (calls (resolve_name Demo.rt "pkg.d.Q" Demo.world).2).
Proof.
  destruct (resolve_state_effect Demo.rt "pkg.d.Q" Demo.world) as (_ & _ & H).
  apply (H "pkg.d" "Q"); vm_compute; reflexivity.
Defined.

(** X11.  The shape of the name decides which failures are possible.  A
    name with a separator fails only as module-not-found or
    missing-member, never as not-found or ambiguous, and a name without
    separator the other way round; the message carries the name, or its
    two parts. *)
Theorem failure_kind_by_shape rt name w e :
  (resolve_name rt name w).1 = Raise e →
  is_Some (error_kind (exc_msg e)) →
  GlobalAliases w !! name = None ∧
  if contains_dot name
  then ∃ modname declname,
         rsplit_last name = Some (modname, declname) ∧
         (exc_msg e = MsgModuleNotFound modname
          ∨ exc_msg e = MsgNoMember modname declname)
  else exc_msg e = MsgNoModuleWithMember name
       ∨ ∃ modnames, exc_msg e = MsgAmbiguous modnames name.
Proof.
  intros Hraise Hkind.
  destruct (GlobalAliases w !! name) as [[|r]|] eqn:Hreg.
  - rewrite resolve_name_registered_None in Hraise by done.
    injection Hraise as <-. by destruct Hkind.
  - by rewrite (resolve_name_registered _ _ _ r) in Hraise.
  - split; [done|]. rewrite resolve_name_unregistered in Hraise by done.
    destruct (contains_dot name) eqn:Hdot.
    + apply contains_dot_rsplit in Hdot as (m & d & Hs).
      exists m, d. split; [done|].
      rewrite (resolve_qualified_run _ _ _ _ _ Hs) in Hraise.
      destruct (import_module rt m w) as [[md|e'] w'] eqn:Hi.
      * destruct (module_dict rt md !! d) as [[|?]|]; simpl in Hraise;
          try done; injection Hraise as <-; by right.
      * destruct (decide (exc_class e' = ModuleNotFoundError));
          simpl in Hraise; injection Hraise as <-; [by left|].
        apply import_module_raises in Hi as [t Ht]. rewrite Ht in Hkind.
        by destruct Hkind.
    + rewrite resolve_simple_run in Hraise. simpl in Hraise.
      unfold scan_result in Hraise.
      destruct (candidates rt name (sys_modules w).*2) as [|m [|m' mods]].
      * injection Hraise as <-. by left.
      * done.
      * destruct (bool_decide (1 < size _)).
        -- injection Hraise as <-. right. eauto.
        -- destruct (elements _) as [|m0 ?].
           ++ injection Hraise as <-. by destruct Hkind.
           ++ unfold read_member in Hraise.
              destruct (module_dict rt m0 !! name) as [[|?]|];
                try done; injection Hraise as <-; [by left|by destruct Hkind].
Qed.

Lemma failure_kind_by_shape_witness :
  GlobalAliases Demo.world !! "pkg.a.Q" = None ∧
  ∃ modname declname,
    rsplit_last "pkg.a.Q" = Some (modname, declname) ∧
    (MsgNoMember "pkg.a" "Q" = MsgModuleNotFound modname
     ∨ MsgNoMember "pkg.a" "Q" = MsgNoMember modname declname).
Proof.
  apply (failure_kind_by_shape Demo.rt "pkg.a.Q" Demo.world
           (mkExc ValueError (MsgNoMember "pkg.a" "Q"))).
  - vm_compute. reflexivity.
  - simpl. eauto.
Defined.

(** ** The scan, case by case *)

Lemma defining_modules_same_members rt vals vals' :
  (∀ v, v ∈ vals ↔ v ∈ vals') →
  defining_modules rt vals = defining_modules rt vals'.
Proof.
  intros Hsame. apply set_eq. intros d. rewrite !elem_of_defining_modules.
  split; intros (v & Hv & Hd); exists v; (split; [by apply Hsame|done]).
Qed.

Lemma defining_modules_one rt vals d :
  vals ≠ [] →
  Forall (λ v, getmodule rt v = Some d) vals →
  defining_modules rt vals = {[d]}.
Proof.
  intros Hne Hall. rewrite Forall_forall in Hall.
  apply set_eq. intros x. rewrite elem_of_defining_modules, elem_of_singleton.
  split.
  - intros (v & Hv & Hx). rewrite (Hall v Hv) in Hx. congruence.
  - intros ->. destruct vals as [|v vals]; [done|].
    exists v. split; [by left|]. apply Hall. by left.
Qed.

Lemma defining_modules_at_most_one rt v :
  (size (defining_modules rt [v]) ≤ 1)%nat.
Proof.
  unfold defining_modules. simpl.
  rewrite (right_id_L ∅ (∪)), set_omap_singleton_L. simpl.
  destruct (getmodule rt v); rewrite ?size_singleton, ?size_empty; lia.
Qed.

(** X12.  A name without separator that is not registered and that
    exactly one loaded module exposes with a true value resolves to that
    module's attribute, with no registration needed and nothing imported. *)
Theorem unique_candidate_resolves rt name w m :
  GlobalAliases w !! name = None →
  contains_dot name = false →
  candidates rt name (sys_modules w).*2 = [m] →
  ∃ r, module_dict rt m !! name = Some (PyRef r) ∧ truthy rt r = true ∧
       resolve_name rt name w = (Ok (PyRef r), log_call EvScan w).
Proof.
  intros Hreg Hdot Hone. rewrite resolve_name_simple by done.
  unfold scan_result. rewrite Hone.
  assert (m ∈ candidates rt name (sys_modules w).*2) as Hm
    by (rewrite Hone; by left).
  apply elem_of_candidates in Hm as (_ & r & Hr & Ht).
  exists r. unfold getattr_default. by rewrite Hr.
Qed.

Lemma unique_candidate_resolves_witness :
  ∃ r, module_dict Demo.rt 1%positive !! "f" = Some (PyRef r) ∧
       truthy Demo.rt r = true ∧
       resolve_name Demo.rt "f" Demo.world
       = (Ok (PyRef r), log_call EvScan Demo.world).
Proof.
  apply unique_candidate_resolves; vm_compute; reflexivity.
Defined.

(** X13.  For a name without separator that is not registered, the
    ambiguity failure is raised exactly when the values of the candidates
    come from more than one module.  The message then lists each of those
    modules once, by its [__name__]: the modules that define the values,
    not the ones that expose them. *)
Theorem ambiguous_exactly_when rt name w :
  GlobalAliases w !! name = None →
  contains_dot name = false →
  (raises_kind (resolve_name rt name w).1 AmbiguousNameKind
   ↔ 1 < size (defining_modules rt (candidate_values rt name w))) ∧
  (1 < size (defining_modules rt (candidate_values rt name w)) →
   ∃ mods,
     (resolve_name rt name w).1
     = Raise (mkExc ValueError (MsgAmbiguous (module_name rt <$> mods) name)) ∧
     NoDup mods ∧ 1 < length mods ∧
     ∀ d, d ∈ mods ↔
          ∃ m, m ∈ candidates rt name (sys_modules w).*2 ∧
               getmodule rt (getattr_default rt m name) = Some d).
Proof.
  intros Hreg Hdot. rewrite resolve_name_simple by done. simpl.
  unfold scan_result, candidate_values.
  destruct (candidates rt name (sys_modules w).*2) as [|m [|m' mods]] eqn:Hc.
  - simpl. unfold defining_modules. simpl.
    rewrite set_omap_empty, size_empty. split; [split|]; [done|lia|lia].
  - pose proof (defining_modules_at_most_one rt (getattr_default rt m name)).
    simpl in *. split; [split|]; [done|lia|lia].
  - set (D := defining_modules rt _).
    destruct (bool_decide (1 < size D)) eqn:Hsz.
    + apply bool_decide_eq_true in Hsz. split; [by split|]. intros _.
      exists (elements D). split; [done|]. split; [apply NoDup_elements|].
      split; [done|]. intros d. rewrite elem_of_elements. unfold D.
      rewrite elem_of_defining_modules. setoid_rewrite list_elem_of_fmap.
      split.
      * intros (v & (x & -> & Hx) & Hd). by exists x.
      * intros (x & Hx & Hd). exists (getattr_default rt x name).
        split; [by exists x|done].
    + apply bool_decide_eq_false in Hsz. split; [|done]. split; [|done].
      destruct (elements D) as [|m0 ?]; simpl; [done|].
      unfold read_member. by destruct (module_dict rt m0 !! name) as [[|?]|].
Qed.

Lemma ambiguous_exactly_when_witness :
  (raises_kind (resolve_name Demo.rt "Own" Demo.world).1 AmbiguousNameKind
   ↔ 1 < size (defining_modules Demo.rt
                 (candidate_values Demo.rt "Own" Demo.world))) ∧
  (1 < size (defining_modules Demo.rt
               (candidate_values Demo.rt "Own" Demo.world)) →
   ∃ mods,
     (resolve_name Demo.rt "Own" Demo.world).1
     = Raise (mkExc ValueError
                (MsgAmbiguous (module_name Demo.rt <$> mods) "Own")) ∧
     NoDup mods ∧ 1 < length mods ∧
     ∀ d, d ∈ mods ↔
          ∃ m, m ∈ candidates Demo.rt "Own" (sys_modules Demo.world).*2 ∧
               getmodule Demo.rt (getattr_default Demo.rt m "Own") = Some d).
Proof.
  apply ambiguous_exactly_when; vm_compute; reflexivity.
Defined.

(** X14.  When several loaded modules expose the name and all their
    values come from one module, the call answers with what that module
    itself binds the name to: the object it binds, if it binds one; the
    not-found failure, if it binds [None]; and [AttributeError], if it does
    not bind the name.  What the exposing modules bind is not returned. *)
Theorem several_exposers_one_definer rt name w d :
  GlobalAliases w !! name = None →
  contains_dot name = false →
  1 < length (candidates rt name (sys_modules w).*2) →
  Forall (λ v, getmodule rt v = Some d) (candidate_values rt name w) →
  (resolve_name rt name w).1
  = match module_dict rt d !! name with
    | Some (PyRef r) => Ok (PyRef r)
    | Some PyNone => Raise (mkExc ValueError (MsgNoModuleWithMember name))
    | None => Raise (mkExc AttributeError (MsgText "module has no attribute"))
    end.
Proof.
  intros Hreg Hdot Hlen Hall. rewrite resolve_name_simple by done.
  rewrite scan_result_several by done. simpl.
  unfold candidate_values in Hall.
  rewrite (defining_modules_one rt _ d); [| |done].
  2: { intros Hnil. apply fmap_nil_inv in Hnil. rewrite Hnil in Hlen.
       simpl in Hlen. lia. }
  rewrite size_singleton, elements_singleton. simpl.
  unfold read_member. by destruct (module_dict rt d !! name) as [[|?]|].
Qed.

Lemma several_exposers_one_definer_witness :
  (resolve_name Demo.rt "Member" Demo.world).1
  = match module_dict Demo.rt 1%positive !! "Member" with
    | Some (PyRef r) => Ok (PyRef r)
    | Some PyNone => Raise (mkExc ValueError (MsgNoModuleWithMember "Member"))
    | None => Raise (mkExc AttributeError (MsgText "module has no attribute"))
    end.
Proof.
  apply several_exposers_one_definer.
  - vm_compute. reflexivity.
  - vm_compute. reflexivity.
  - vm_compute. lia.
  - apply (bool_decide_unpack _). vm_compute. reflexivity.
Defined.

Lemma scan_result_perm rt name loaded loaded' :
  loaded ≡ₚ loaded' → scan_result rt name loaded = scan_result rt name loaded'.
Proof.
  intros Hperm.
  assert (candidates rt name loaded ≡ₚ candidates rt name loaded') as Hc
    by (unfold candidates; by rewrite Hperm).
  destruct (decide (1 < length (candidates rt name loaded))) as [Hlen|Hlen].
  - rewrite !scan_result_several by (by rewrite <- ?Hc). simpl.
    rewrite (defining_modules_same_members rt _
               ((λ m, getattr_default rt m name) <$> candidates rt name loaded'));
      [done|].
    intros v. by rewrite Hc.
  - unfold scan_result.
    destruct (candidates rt name loaded) as [|m [|m' mods]];
      [| |simpl in Hlen; lia].
    + apply Permutation_nil_l in Hc. by rewrite <- Hc.
    + apply Permutation_singleton_l in Hc. by rewrite <- Hc.
Qed.

(** X15.  The order in which the modules were loaded does not matter to
    a name without separator: two states with the same registry and the
    same loaded modules, listed in any order, give the same answer. *)
Theorem load_order_irrelevant rt name w w' :
  GlobalAliases w' = GlobalAliases w →
  (sys_modules w').*2 ≡ₚ (sys_modules w).*2 →
  contains_dot name = false →
  (resolve_name rt name w').1 = (resolve_name rt name w).1.
Proof.
  intros Hreg Hperm Hdot.
  destruct (GlobalAliases w !! name) as [[|r]|] eqn:H.
  - rewrite !resolve_name_registered_None; by rewrite ?Hreg.
  - rewrite !(resolve_name_registered _ _ _ r); by rewrite ?Hreg.
  - rewrite !resolve_name_simple; try done; [|by rewrite Hreg].
    simpl. by apply scan_result_perm.
Qed.

Lemma load_order_irrelevant_witness :
  (resolve_name Demo.rt "Member"
     (mkWorld ∅ [("pkg.c", 3%positive); ("pkg.b", 2%positive);
                 ("pkg.a", 1%positive)] [])).1
  = (resolve_name Demo.rt "Member" Demo.world).1.
Proof.
  apply load_order_irrelevant.
  - reflexivity.
  - simpl. apply Permutation_sym.
    etrans; [apply Permutation_swap|]. etrans; [apply perm_skip, Permutation_swap|].
    apply Permutation_swap.
  - vm_compute. reflexivity.
Defined.

(** X16.  For a name without separator that is not registered, the
    not-found failure has exactly two sources: no loaded module exposes the
    name with a true value; or several do, their values come from one
    module, and that module binds the name to [None]. *)
Theorem not_found_exactly_when rt name w :
  GlobalAliases w !! name = None →
  contains_dot name = false →
  raises_kind (resolve_name rt name w).1 NotFoundKind
  ↔ candidates rt name (sys_modules w).*2 = []
    ∨ (1 < length (candidates rt name (sys_modules w).*2) ∧
       ∃ d, defining_modules rt (candidate_values rt name w) = {[d]} ∧
            module_dict rt d !! name = Some PyNone).
Proof.
  intros Hreg Hdot. split.
  - intros Hk.
    destruct (scan_not_found_cases rt name w Hreg Hdot Hk)
      as [?|(Hlen & d & Hd & Hsz & Hb)]; [by left|].
    right. split; [done|]. exists d. split; [|done].
    apply size_1_elem_of in Hsz as [x Hx]. apply leibniz_equiv in Hx.
    rewrite Hx in Hd. apply elem_of_singleton in Hd as ->. done.
  - intros [Hnone|(Hlen & d & HD & Hb)].
    + by rewrite scan_no_candidate.
    + rewrite resolve_name_simple by done. rewrite scan_result_several by done.
      simpl. unfold candidate_values in HD. rewrite HD.
      rewrite size_singleton, elements_singleton. simpl.
      unfold read_member. by rewrite Hb.
Qed.

Lemma not_found_exactly_when_witness :
  raises_kind (resolve_name Demo.rt "Nope" Demo.world).1 NotFoundKind
  ↔ candidates Demo.rt "Nope" (sys_modules Demo.world).*2 = []
    ∨ (1 < length (candidates Demo.rt "Nope" (sys_modules Demo.world).*2) ∧
       ∃ d, defining_modules Demo.rt (candidate_values Demo.rt "Nope" Demo.world)
            = {[d]} ∧
            module_dict Demo.rt d !! "Nope" = Some PyNone).
Proof.
  apply not_found_exactly_when; vm_compute; reflexivity.
Defined.

(** ** Qualified names of loaded modules *)

(** X17.  The qualified name of an attribute of a loaded module resolves
    to that attribute: for a module loaded under [modname] that binds
    [declname] (a name without separator) to an object, resolving
    [modname.declname] returns the object, whether it is true or false,
    and loads nothing new. *)
Theorem qualified_name_of_loaded_attribute rt modname declname m r w :
  contains_dot declname = false →
  GlobalAliases w !! (modname +:+ "." +:+ declname) = None →
  modules_get modname (sys_modules w) = Some m →
  module_dict rt m !! declname = Some (PyRef r) →
  resolve_name rt (modname +:+ "." +:+ declname) w
  = (Ok (PyRef r), log_call (EvImport modname) w).
Proof.
  intros Hd Hreg Hloaded Hattr.
  assert (rsplit_last (modname +:+ "." +:+ declname) = Some (modname, declname))
    as Hsplit by by apply rsplit_last_Some.
  rewrite resolve_name_unregistered by done.
  rewrite (rsplit_dotted _ _ _ Hsplit).
  rewrite (resolve_qualified_run _ _ _ _ _ Hsplit).
  rewrite import_module_run. simpl. rewrite Hloaded. by rewrite Hattr.
Qed.

Lemma qualified_name_of_loaded_attribute_witness :
  resolve_name Demo.rt ("pkg.a" +:+ "." +:+ "ZERO") Demo.world
  = (Ok (PyRef 11%positive), log_call (EvImport "pkg.a") Demo.world).
Proof.
  apply (qualified_name_of_loaded_attribute Demo.rt "pkg.a" "ZERO" 1%positive);
    vm_compute; reflexivity.
Defined.


